(** * Netflow: the two Objective-C bridging headers

    The repository slice holds two header files,
    [apps/macos/FlixorMac/FlixorMac-Bridging-Header.h] and
    [apps/tvos/FlixorTV/FlixorTV-Bridging-Header.h].  A header is a program for
    the C preprocessor: this development embeds each file as its text, line by
    line, together with the part of the preprocessor the files exercise
    (comments, [#ifndef]/[#ifdef]/[#else]/[#endif], [#define]/[#undef],
    [#import]/[#include], [#error]), written as a state-passing interpreter
    over a translation-unit state.

    What an imported library header declares belongs to that library (mpv,
    Metal, MetalKit); the translation unit records which of them are visible. *)

From Stdlib Require Import String Ascii List Bool.
From stdpp Require Import gmap strings list fin_maps.
Import ListNotations.
Local Open Scope string_scope.

(** ** The source text *)

Module Source.

(** [apps/macos/FlixorMac/FlixorMac-Bridging-Header.h], lines 1 to 18. *)
Definition FlixorMac_Bridging_Header_h : list string :=
  [ "//"
  ; "//  FlixorMac-Bridging-Header.h"
  ; "//  FlixorMac"
  ; "//"
  ; "//  Bridging header for MPV integration"
  ; "//"
  ; ""
  ; "#ifndef FlixorMac_Bridging_Header_h"
  ; "#define FlixorMac_Bridging_Header_h"
  ; ""
  ; "// MPV Headers"
  ; "#import <mpv/client.h>"
  ; "#import <mpv/render.h>"
  ; "#import <mpv/render_gl.h>"
  ; "#import <mpv/stream_cb.h>"
  ; ""
  ; "#endif /* FlixorMac_Bridging_Header_h */"
  ; ""
  ].

(** [apps/tvos/FlixorTV/FlixorTV-Bridging-Header.h], lines 1 to 21. *)
Definition FlixorTV_Bridging_Header_h : list string :=
  [ "//"
  ; "//  FlixorTV-Bridging-Header.h"
  ; "//  FlixorTV"
  ; "//"
  ; "//  Bridging header for MPV integration"
  ; "//"
  ; ""
  ; "#ifndef FlixorTV_Bridging_Header_h"
  ; "#define FlixorTV_Bridging_Header_h"
  ; ""
  ; "// MPV Headers"
  ; "#import <mpv/client.h>"
  ; "#import <mpv/render.h>"
  ; "#import <mpv/render_gl.h>"
  ; "#import <mpv/stream_cb.h>"
  ; ""
  ; "// Metal/MetalKit for rendering"
  ; "#import <Metal/Metal.h>"
  ; "#import <MetalKit/MetalKit.h>"
  ; ""
  ; "#endif /* FlixorTV_Bridging_Header_h */"
  ].

End Source.

(** The two platforms' bridging headers. *)
Inductive header : Type :=
  | FlixorMac
  | FlixorTV.

#[global] Instance header_eq_dec : EqDecision header.
Proof. solve_decision. Defined.

Definition text_of (h : header) : list string :=
  match h with
  | FlixorMac => Source.FlixorMac_Bridging_Header_h
  | FlixorTV => Source.FlixorTV_Bridging_Header_h
  end.

(** ** Lexing one physical line *)

Module Lex.

Definition is_blank (c : ascii) : bool :=
  Ascii.eqb c " "%char || Ascii.eqb c (ascii_of_nat 9).

Definition is_ident_char (c : ascii) : bool :=
  let n := nat_of_ascii c in
  ((48 <=? n) && (n <=? 57))%nat
  || ((65 <=? n) && (n <=? 90))%nat
  || ((97 <=? n) && (n <=? 122))%nat
  || (n =? 95)%nat.

Fixpoint skip_blanks (s : string) : string :=
  match s with
  | String c r => if is_blank c then skip_blanks r else s
  | EmptyString => s
  end.

(** The longest identifier prefix of [s] and what follows it. *)
Fixpoint take_ident (s : string) : string * string :=
  match s with
  | String c r =>
      if is_ident_char c
      then let '(i, t) := take_ident r in (String c i, t)
      else (EmptyString, s)
  | EmptyString => (EmptyString, EmptyString)
  end.

(** The text up to the first [stop] character, and what follows that
    character; [None] when [stop] does not occur. *)
Fixpoint take_until (stop : ascii) (s : string) : option (string * string) :=
  match s with
  | String c r =>
      if Ascii.eqb c stop then Some (EmptyString, r)
      else match take_until stop r with
           | Some (p, t) => Some (String c p, t)
           | None => None
           end
  | EmptyString => None
  end.

(** Scanner for the tail of a line that may hold only blanks and comments. *)
Inductive scan : Type :=
  | Outside
  | SawSlash
  | InBlock
  | InBlockStar
  | InLineComment.

Fixpoint trivia_from (st : scan) (s : string) : bool :=
  match s with
  | EmptyString =>
      match st with
      | Outside | InLineComment => true
      | SawSlash | InBlock | InBlockStar => false
      end
  | String c r =>
      match st with
      | Outside =>
          if is_blank c then trivia_from Outside r
          else if Ascii.eqb c "/"%char then trivia_from SawSlash r
          else false
      | SawSlash =>
          if Ascii.eqb c "/"%char then trivia_from InLineComment r
          else if Ascii.eqb c "*"%char then trivia_from InBlock r
          else false
      | InBlock =>
          if Ascii.eqb c "*"%char then trivia_from InBlockStar r
          else trivia_from InBlock r
      | InBlockStar =>
          if Ascii.eqb c "/"%char then trivia_from Outside r
          else if Ascii.eqb c "*"%char then trivia_from InBlockStar r
          else trivia_from InBlock r
      | InLineComment => trivia_from InLineComment r
      end
  end.

Definition only_trivia (s : string) : bool := trivia_from Outside s.

(** What one line of a header is. *)
Inductive line : Type :=
  | LBlank
  | LComment
  | LIfndef (m : string)
  | LIfdef (m : string)
  | LElse
  | LEndif
  | LDefine (m body : string)
  | LUndef (m : string)
  | LImport (path : string)
  | LError (msg : string)
  | LBad (raw : string)
  | LText (raw : string).

(** A directive that takes one macro name and nothing else. *)
Definition with_macro (k : string -> line) (raw args : string) : line :=
  let '(m, t) := take_ident args in
  if String.eqb m "" then LBad raw
  else if only_trivia t then k m else LBad raw.

Definition lex_define (raw args : string) : line :=
  let '(m, t) := take_ident args in
  if String.eqb m "" then LBad raw else LDefine m (skip_blanks t).

(** [#import <path>] or [#import] with a quoted path (character 34).
    [#include] is lexed the same way: the translation unit records which
    headers are visible, and for that the two directives agree. *)
Definition lex_import (raw args : string) : line :=
  match args with
  | String c r =>
      let close :=
        if Ascii.eqb c "<"%char then Some ">"%char
        else if Ascii.eqb c (ascii_of_nat 34) then Some (ascii_of_nat 34)
        else None in
      match close with
      | Some stop =>
          match take_until stop r with
          | Some (p, t) =>
              if String.eqb p "" then LBad raw
              else if only_trivia t then LImport p else LBad raw
          | None => LBad raw
          end
      | None => LBad raw
      end
  | EmptyString => LBad raw
  end.

Definition lex_directive (raw after_hash : string) : line :=
  let '(name, rest) := take_ident (skip_blanks after_hash) in
  let args := skip_blanks rest in
  if String.eqb name "" then (if only_trivia args then LBlank else LBad raw)
  else if String.eqb name "ifndef" then with_macro LIfndef raw args
  else if String.eqb name "ifdef" then with_macro LIfdef raw args
  else if String.eqb name "undef" then with_macro LUndef raw args
  else if String.eqb name "define" then lex_define raw args
  else if String.eqb name "import" then lex_import raw args
  else if String.eqb name "include" then lex_import raw args
  else if String.eqb name "else" then (if only_trivia args then LElse else LBad raw)
  else if String.eqb name "endif" then (if only_trivia args then LEndif else LBad raw)
  else if String.eqb name "error" then LError args
  else LBad raw.

Definition lex_line (raw : string) : line :=
  match skip_blanks raw with
  | EmptyString => LBlank
  | String c r =>
      if Ascii.eqb c "#"%char then lex_directive raw r
      else if only_trivia (String c r) then LComment
      else LText raw
  end.

End Lex.
Export Lex.

Definition lines_of (h : header) : list line := map lex_line (text_of h).

(** ** The preprocessor over a translation unit *)

Module Cpp.

Inductive pp_error : Type :=
  | EndifWithoutIf
  | ElseWithoutIf
  | ElseAfterElse
  | UnterminatedConditional
  | ErrorDirective (msg : string)
  | InvalidDirective (raw : string).

Inductive result (A : Type) : Type :=
  | Ok (a : A)
  | Err (e : pp_error).
Arguments Ok {A} a.
Arguments Err {A} e.

Definition bind {A B : Type} (r : result A) (k : A -> result B) : result B :=
  match r with
  | Ok a => k a
  | Err e => Err e
  end.

Definition is_ok {A : Type} (r : result A) : bool :=
  match r with
  | Ok _ => true
  | Err _ => false
  end.

(** A translation unit while it is preprocessed: the macro table (name to
    replacement text), the library headers made visible so far, and the
    program text that has been passed on to the compiler proper. *)
Record tu_state : Type := TU
  { macros : gmap string string
  ; imported : gset string
  ; code : list string
  }.

Definition initial : tu_state := TU ∅ ∅ [].

(** One open conditional group. *)
Record frame : Type := Frame
  { live : bool
  ; seen_else : bool
  }.

Definition active (fs : list frame) : bool := forallb live fs.

Definition defined (m : string) (s : tu_state) : bool :=
  bool_decide (is_Some (macros s !! m)).

Definition define_macro (m body : string) (s : tu_state) : tu_state :=
  TU (<[m := body]> (macros s)) (imported s) (code s).

Definition undef_macro (m : string) (s : tu_state) : tu_state :=
  TU (delete m (macros s)) (imported s) (code s).

(** [#import] brings a header in once; a header already visible stays so. *)
Definition import_header (path : string) (s : tu_state) : tu_state :=
  TU (macros s) ({[ path ]} ∪ imported s) (code s).

Definition emit (raw : string) (s : tu_state) : tu_state :=
  TU (macros s) (imported s) (code s ++ [raw]).

Definition process_line (l : line) (fs : list frame) (s : tu_state)
  : result (list frame * tu_state) :=
  match l with
  | LBlank | LComment => Ok (fs, s)
  | LIfndef m => Ok (Frame (negb (defined m s)) false :: fs, s)
  | LIfdef m => Ok (Frame (defined m s) false :: fs, s)
  | LElse =>
      match fs with
      | [] => Err ElseWithoutIf
      | f :: fs' =>
          if seen_else f then Err ElseAfterElse
          else Ok (Frame (negb (live f)) true :: fs', s)
      end
  | LEndif =>
      match fs with
      | [] => Err EndifWithoutIf
      | _ :: fs' => Ok (fs', s)
      end
  | LDefine m body => Ok (fs, if active fs then define_macro m body s else s)
  | LUndef m => Ok (fs, if active fs then undef_macro m s else s)
  | LImport p => Ok (fs, if active fs then import_header p s else s)
  | LError msg => if active fs then Err (ErrorDirective msg) else Ok (fs, s)
  | LBad raw => if active fs then Err (InvalidDirective raw) else Ok (fs, s)
  | LText raw => Ok (fs, if active fs then emit raw s else s)
  end.

Fixpoint process_lines (ls : list line) (fs : list frame) (s : tu_state)
  : result (list frame * tu_state) :=
  match ls with
  | [] => Ok (fs, s)
  | l :: ls' =>
      match process_line l fs s with
      | Ok (fs', s') => process_lines ls' fs' s'
      | Err e => Err e
      end
  end.

(** A file is processed from its first line with no conditional open, and
    every conditional it opens has to be closed by its last line. *)
Definition process_file (ls : list line) (s : tu_state) : result tu_state :=
  match process_lines ls [] s with
  | Ok ([], s') => Ok s'
  | Ok (_ :: _, _) => Err UnterminatedConditional
  | Err e => Err e
  end.

End Cpp.
Export Cpp.

(** Processing one bridging header, and a sequence of them, in one
    translation unit. *)
Definition process (h : header) (s : tu_state) : result tu_state :=
  process_file (lines_of h) s.

Fixpoint process_all (hs : list header) (s : tu_state) : result tu_state :=
  match hs with
  | [] => Ok s
  | h :: hs' => bind (process h s) (process_all hs')
  end.

Fixpoint process_times (n : nat) (h : header) (s : tu_state) : result tu_state :=
  match n with
  | O => Ok s
  | S n' => bind (process h s) (process_times n' h)
  end.

(** ** What a header says, read off its lines *)

Fixpoint imports_of (ls : list line) : list string :=
  match ls with
  | [] => []
  | LImport p :: ls' => p :: imports_of ls'
  | _ :: ls' => imports_of ls'
  end.

Definition is_mpv (path : string) : bool := String.prefix "mpv/" path.

Definition mpv_imports (h : header) : list string :=
  filter (fun p => is_mpv p = true) (imports_of (lines_of h)).

(** The macro of the include guard: the first directive is [#ifndef G], the
    next one [#define G], and the last one [#endif]. *)
Definition is_trivia (l : line) : bool :=
  match l with
  | LBlank | LComment => true
  | _ => false
  end.

Definition directives (ls : list line) : list line :=
  filter (fun l => is_trivia l = false) ls.

Definition include_guard (ls : list line) : option string :=
  match directives ls with
  | LIfndef g :: LDefine g' _ :: rest =>
      if String.eqb g g'
      then match List.last rest LBlank with
           | LEndif => Some g
           | _ => None
           end
      else None
  | _ => None
  end.

Definition guard_of (h : header) : string :=
  match h with
  | FlixorMac => "FlixorMac_Bridging_Header_h"
  | FlixorTV => "FlixorTV_Bridging_Header_h"
  end.

(** The state a header's body produces when its guard lets it through. *)
Definition expose (h : header) (s : tu_state) : tu_state :=
  fold_left (fun s' p => import_header p s') (imports_of (lines_of h))
    (define_macro (guard_of h) "" s).

Definition imports (h : header) : list string := imports_of (lines_of h).

Definition mpv_headers : list string :=
  [ "mpv/client.h"; "mpv/render.h"; "mpv/render_gl.h"; "mpv/stream_cb.h" ].

Definition graphics_headers : list string :=
  [ "Metal/Metal.h"; "MetalKit/MetalKit.h" ].

(** Processing [h] in a fresh translation unit makes header [p] visible. *)
Definition makes_visible (h : header) (p : string) : Prop :=
  exists s', process h initial = Ok s' /\ p ∈ imported s'.

Definition exposes_all (h : header) (ps : list string) : Prop :=
  Forall (fun p => In p (imports h) /\ makes_visible h p) ps.

(** A line that is a comment, blank, an import, or one of the three lines of
    the include guard on macro [g]. *)
Definition import_or_guard (g : string) (l : line) : bool :=
  match l with
  | LBlank | LComment | LEndif | LImport _ => true
  | LIfndef m => String.eqb m g
  | LDefine m body => String.eqb m g && String.eqb body ""
  | LIfdef _ | LElse | LUndef _ | LError _ | LBad _ | LText _ => false
  end.

(** The lines of a header that reach the compiler as program text. *)
Fixpoint program_text (ls : list line) : list string :=
  match ls with
  | [] => []
  | LText raw :: ls' => raw :: program_text ls'
  | _ :: ls' => program_text ls'
  end.

(** The macros a header defines, with their replacement text. *)
Fixpoint defines_of (ls : list line) : list (string * string) :=
  match ls with
  | [] => []
  | LDefine m body :: ls' => (m, body) :: defines_of ls'
  | _ :: ls' => defines_of ls'
  end.

(** The lines on which the preprocessor can stop with an error. *)
Definition may_fail (l : line) : bool :=
  match l with
  | LError _ | LBad _ => true
  | _ => false
  end.

(** ** Two compilations side by side

    Each platform target is built by a compilation of its own, which reads its
    bridging header one line at a time into its own translation unit.  A
    schedule says which compilation takes the next step. *)

Module Build.

Record job : Type := Job
  { pending : list line
  ; frames : list frame
  ; unit : tu_state
  }.

Definition start (h : header) (s : tu_state) : job := Job (lines_of h) [] s.

(** One step of a compilation; a compilation with nothing pending stays put. *)
Definition advance (j : job) : result job :=
  match pending j with
  | [] => Ok j
  | l :: ls =>
      match process_line l (frames j) (unit j) with
      | Ok (fs, s) => Ok (Job ls fs s)
      | Err e => Err e
      end
  end.

Fixpoint advance_by (n : nat) (j : job) : result job :=
  match n with
  | O => Ok j
  | S n' => bind (advance j) (advance_by n')
  end.

Inductive target : Type :=
  | MacOS
  | TvOS.

Record world : Type := World
  { mac_build : job
  ; tv_build : job
  }.

Definition turn (t : target) (w : world) : result world :=
  match t with
  | MacOS => bind (advance (mac_build w)) (fun j => Ok (World j (tv_build w)))
  | TvOS => bind (advance (tv_build w)) (fun j => Ok (World (mac_build w) j))
  end.

Fixpoint run_schedule (sch : list target) (w : world) : result world :=
  match sch with
  | [] => Ok w
  | t :: sch' => bind (turn t w) (run_schedule sch')
  end.

Definition is_mac (t : target) : bool :=
  match t with
  | MacOS => true
  | TvOS => false
  end.

(** How many steps of the schedule go to each compilation. *)
Definition mac_turns (sch : list target) : nat :=
  length (filter (fun t => is_mac t = true) sch).

Definition tv_turns (sch : list target) : nat :=
  length (filter (fun t => is_mac t = false) sch).

(** The program text the two compilations have produced between them: the
    one thing that outlives both and that they would have in common. *)
Definition program (w : world) : list string :=
  code (unit (mac_build w)) ++ code (unit (tv_build w)).

End Build.

(** ** One pass as a function of the state, and what a guard promises *)

(** The state one pass over [h] ends in: the body is let through when the
    guard is not yet defined. *)
Definition pass (h : header) (s : tu_state) : tu_state :=
  if defined (guard_of h) s then s else expose h s.

Definition pass_all (hs : list header) (s : tu_state) : tu_state :=
  fold_left (fun s' h => pass h s') hs s.

(** A translation unit keeps faith with the guards when a guard that is
    defined means that the imports of its header are visible. *)
Definition guards_sound (s : tu_state) : Prop :=
  forall h p, defined (guard_of h) s = true -> In p (imports h) -> p ∈ imported s.

(** ** How a header describes itself *)

(** Where the two files live in the repository. *)
Definition path_of (h : header) : string :=
  match h with
  | FlixorMac => "apps/macos/FlixorMac/FlixorMac-Bridging-Header.h"
  | FlixorTV => "apps/tvos/FlixorTV/FlixorTV-Bridging-Header.h"
  end.

Fixpoint split_on (sep : ascii) (s : string) : list string :=
  match s with
  | EmptyString => [EmptyString]
  | String c r =>
      if Ascii.eqb c sep then EmptyString :: split_on sep r
      else match split_on sep r with
           | x :: xs => String c x :: xs
           | [] => [String c EmptyString]
           end
  end.

Definition file_name (h : header) : string :=
  List.last (split_on "/" (path_of h)) "".

Definition directory_name (h : header) : string :=
  List.last (removelast (split_on "/" (path_of h))) "".

(** The text of a [//] comment line, without the leading blanks. *)
Definition comment_text (raw : string) : option string :=
  match skip_blanks raw with
  | String c1 (String c2 r) =>
      if Ascii.eqb c1 "/" && Ascii.eqb c2 "/" then Some (skip_blanks r) else None
  | _ => None
  end.

(** The identifier a line names in a block comment that holds nothing else. *)
Definition named_in_block_comment (raw : string) : option string :=
  match String.index 0 "/*" raw with
  | Some i =>
      let after := String.substring (i + 2) (String.length raw - (i + 2)) raw in
      let '(name, rest) := take_ident (skip_blanks after) in
      if String.prefix "*/" (skip_blanks rest) then Some name else None
  | None => None
  end.

(** A file name turned into a macro name: every character that cannot be part
    of an identifier becomes an underscore. *)
Fixpoint mangle (s : string) : string :=
  match s with
  | EmptyString => EmptyString
  | String c r => String (if is_ident_char c then c else "_"%char) (mangle r)
  end.

Definition is_endif (raw : string) : bool :=
  match lex_line raw with
  | LEndif => true
  | _ => false
  end.

(** ** The lexed form of the two files *)

Lemma lines_of_FlixorMac :
  lines_of FlixorMac =
  [ LComment; LComment; LComment; LComment; LComment; LComment; LBlank
  ; LIfndef "FlixorMac_Bridging_Header_h"
  ; LDefine "FlixorMac_Bridging_Header_h" ""
  ; LBlank; LComment
  ; LImport "mpv/client.h"; LImport "mpv/render.h"
  ; LImport "mpv/render_gl.h"; LImport "mpv/stream_cb.h"
  ; LBlank; LEndif; LBlank ].
Proof. vm_compute. reflexivity. Qed.

Lemma lines_of_FlixorTV :
  lines_of FlixorTV =
  [ LComment; LComment; LComment; LComment; LComment; LComment; LBlank
  ; LIfndef "FlixorTV_Bridging_Header_h"
  ; LDefine "FlixorTV_Bridging_Header_h" ""
  ; LBlank; LComment
  ; LImport "mpv/client.h"; LImport "mpv/render.h"
  ; LImport "mpv/render_gl.h"; LImport "mpv/stream_cb.h"
  ; LBlank; LComment
  ; LImport "Metal/Metal.h"; LImport "MetalKit/MetalKit.h"
  ; LBlank; LEndif ].
Proof. vm_compute. reflexivity. Qed.

Lemma include_guard_of (h : header) :
  include_guard (lines_of h) = Some (guard_of h).
Proof. destruct h; vm_compute; reflexivity. Qed.

Lemma imports_FlixorMac : imports FlixorMac = mpv_headers.
Proof. vm_compute. reflexivity. Qed.

Lemma imports_FlixorTV : imports FlixorTV = (mpv_headers ++ graphics_headers)%list.
Proof. vm_compute. reflexivity. Qed.

(** ** The interpreter on other input

    What the lexer and the preprocessor do on lines the two headers do not
    have: program text is passed on, and the error branches are taken. *)

Example lex_endif_with_comment :
  lex_line "#endif /* FlixorTV_Bridging_Header_h */" = LEndif.
Proof. reflexivity. Qed.

Example lex_endif_with_tokens : lex_line "#endif x" = LBad "#endif x".
Proof. reflexivity. Qed.

Example lex_declaration : lex_line "int frames = 0;" = LText "int frames = 0;".
Proof. reflexivity. Qed.

Example lex_unclosed_import :
  lex_line "#import <mpv/client.h" = LBad "#import <mpv/client.h".
Proof. reflexivity. Qed.

Example declaration_reaches_compiler :
  bind (process_file (map lex_line ["#ifndef G"; "int frames = 0;"; "#endif"]) initial)
       (fun s => Ok (code s))
  = Ok ["int frames = 0;"].
Proof. vm_compute. reflexivity. Qed.

Example stray_endif_fails :
  is_ok (process_file (map lex_line ["#import <mpv/client.h>"; "#endif"]) initial)
  = false.
Proof. vm_compute. reflexivity. Qed.

Example open_guard_fails :
  is_ok (process_file (map lex_line ["#ifndef G"; "#define G"]) initial) = false.
Proof. vm_compute. reflexivity. Qed.

Example error_directive_fails :
  is_ok (process_file (map lex_line ["#error unsupported platform"]) initial) = false.
Proof. vm_compute. reflexivity. Qed.

(** ** One pass over a header, in closed form *)

Lemma process_closed_form (h : header) (s : tu_state) :
  process h s = Ok (if defined (guard_of h) s then s else expose h s).
Proof.
  unfold process, process_file, expose, imports.
  destruct h.
  - rewrite lines_of_FlixorMac.
    cbn [process_lines process_line active forallb live guard_of].
    destruct (defined _ s); cbn; reflexivity.
  - rewrite lines_of_FlixorTV.
    cbn [process_lines process_line active forallb live guard_of].
    destruct (defined _ s); cbn; reflexivity.
Qed.

Lemma code_import_all (ps : list string) (s : tu_state) :
  code (fold_left (fun s' p => import_header p s') ps s) = code s.
Proof. revert s. induction ps as [|p ps IH]; intros s; cbn; [done|]. by rewrite IH. Qed.

Lemma macros_import_all (ps : list string) (s : tu_state) :
  macros (fold_left (fun s' p => import_header p s') ps s) = macros s.
Proof. revert s. induction ps as [|p ps IH]; intros s; cbn; [done|]. by rewrite IH. Qed.

Lemma imported_import_all (ps : list string) (s : tu_state) :
  imported (fold_left (fun s' p => import_header p s') ps s)
  = imported s ∪ list_to_set ps.
Proof.
  revert s. induction ps as [|p ps IH]; intros s; cbn.
  - by rewrite (right_id_L ∅ (∪)).
  - rewrite IH. cbn.
    by rewrite (comm_L (∪) {[ p ]} (imported s)), (assoc_L (∪)).
Qed.

Lemma code_expose (h : header) (s : tu_state) : code (expose h s) = code s.
Proof. unfold expose. by rewrite code_import_all. Qed.

Lemma macros_expose (h : header) (s : tu_state) :
  macros (expose h s) = <[guard_of h := ""]> (macros s).
Proof. unfold expose. by rewrite macros_import_all. Qed.

Lemma imported_expose (h : header) (s : tu_state) :
  imported (expose h s) = imported s ∪ list_to_set (imports h).
Proof. unfold expose. by rewrite imported_import_all. Qed.

Lemma guard_of_inj (h h' : header) : guard_of h = guard_of h' -> h = h'.
Proof. destruct h, h'; cbn; intros E; first [reflexivity | discriminate E]. Qed.

Lemma defined_expose (h h' : header) (s : tu_state) :
  defined (guard_of h') (expose h s)
  = if decide (h = h') then true else defined (guard_of h') s.
Proof.
  unfold defined. rewrite macros_expose.
  case_decide as E.
  - subst h'. rewrite lookup_insert_eq. apply bool_decide_eq_true. eauto.
  - rewrite lookup_insert_ne; [done|]. intros G. by apply E, guard_of_inj.
Qed.

Lemma defined_initial (m : string) : defined m initial = false.
Proof.
  unfold defined, initial. cbn. rewrite lookup_empty.
  apply bool_decide_eq_false. intros [v Hv]. discriminate Hv.
Qed.

Lemma process_initial (h : header) : process h initial = Ok (expose h initial).
Proof. rewrite process_closed_form. by rewrite defined_initial. Qed.

(** In a fresh translation unit a header makes visible exactly what its
    import lines name. *)
Lemma makes_visible_iff (h : header) (p : string) :
  makes_visible h p <-> In p (imports h).
Proof.
  unfold makes_visible. rewrite process_initial. split.
  - intros (s' & E & Hp). injection E as <-.
    rewrite imported_expose in Hp. cbn in Hp.
    apply elem_of_union in Hp as [Hp|Hp]; [by apply not_elem_of_empty in Hp|].
    apply elem_of_list_to_set in Hp. by apply list_elem_of_In.
  - intros Hp. eexists. split; [reflexivity|].
    rewrite imported_expose. apply elem_of_union_r, elem_of_list_to_set.
    by apply list_elem_of_In.
Qed.

Lemma exposes_all_iff (h : header) (ps : list string) :
  exposes_all h ps <-> Forall (fun p => In p (imports h)) ps.
Proof.
  unfold exposes_all. apply Forall_iff. intros p.
  rewrite makes_visible_iff. tauto.
Qed.

(** ** The headers each file imports *)

(** C1, as stated, fails on the macOS header: it has no import line for
    Metal or MetalKit, and processing it leaves neither visible. *)
Lemma FlixorMac_without_graphics :
  ~ (exposes_all FlixorMac mpv_headers /\ exposes_all FlixorMac graphics_headers).
Proof.
  intros [_ Hg]. apply exposes_all_iff in Hg.
  rewrite imports_FlixorMac in Hg.
  apply Forall_inv in Hg. cbn in Hg.
  repeat destruct Hg as [Hg|Hg]; try discriminate Hg. exact Hg.
Qed.

(** C1 (amended): both bridging headers expose the four mpv headers, by
    their import lines and in the translation unit that processes them; the
    tvOS header exposes Metal and MetalKit as well, and the macOS header
    exposes neither of the two. *)
Theorem mpv_on_both_graphics_on_tvos :
  exposes_all FlixorMac mpv_headers
  /\ exposes_all FlixorTV mpv_headers
  /\ exposes_all FlixorTV graphics_headers
  /\ Forall (fun p => ~ In p (imports FlixorMac) /\ ~ makes_visible FlixorMac p)
       graphics_headers.
Proof.
  repeat split.
  - apply exposes_all_iff. rewrite imports_FlixorMac.
    apply List.Forall_forall. auto.
  - apply exposes_all_iff. rewrite imports_FlixorTV.
    apply List.Forall_forall. intros p Hp. apply in_or_app. by left.
  - apply exposes_all_iff. rewrite imports_FlixorTV.
    apply List.Forall_forall. intros p Hp. apply in_or_app. by right.
  - apply List.Forall_forall. intros p Hp.
    rewrite makes_visible_iff, imports_FlixorMac.
    assert (~ In p mpv_headers) as Hn.
    { cbn in Hp. cbn. intros Hm.
      repeat destruct Hp as [Hp|Hp]; try contradiction; subst p;
        repeat destruct Hm as [Hm|Hm]; try discriminate Hm; exact Hm. }
    tauto.
Qed.

(** C2: in each bridging header the imports under [mpv/] are exactly
    client, render, render_gl and stream_cb, each once and in that order; and
    the mpv headers a fresh translation unit sees after processing the file
    are those four and no other. *)
Theorem mpv_imports_exact (h : header) :
  mpv_imports h = mpv_headers
  /\ forall p, (makes_visible h p /\ is_mpv p = true) <-> In p mpv_headers.
Proof.
  split.
  - destruct h; vm_compute; reflexivity.
  - intros p. rewrite makes_visible_iff.
    assert (forall q, In q graphics_headers -> is_mpv q = false) as Hg.
    { intros q Hq. cbn in Hq.
      repeat destruct Hq as [Hq|Hq]; try contradiction; subst q; reflexivity. }
    assert (forall q, In q mpv_headers -> is_mpv q = true) as Hm.
    { intros q Hq. cbn in Hq.
      repeat destruct Hq as [Hq|Hq]; try contradiction; subst q; reflexivity. }
    destruct h.
    + rewrite imports_FlixorMac. split; [tauto | auto].
    + rewrite imports_FlixorTV. rewrite in_app_iff. split.
      * intros [[Hp|Hp] Hmpv]; [exact Hp|].
        apply Hg in Hp. congruence.
      * auto.
Qed.

(** ** The files hold imports and an include guard, nothing else *)

(** C3: every line of either bridging header is blank, a comment, a header
    import, or one of the three lines of the include guard
    ([#ifndef G], [#define G] with empty replacement text, [#endif]); no line
    is program text, and the guard macro is the only macro a file defines. *)
Theorem only_imports_and_guard (h : header) :
  Forall (fun raw => import_or_guard (guard_of h) (lex_line raw) = true) (text_of h)
  /\ program_text (lines_of h) = []
  /\ defines_of (lines_of h) = [(guard_of h, "")]
  /\ include_guard (lines_of h) = Some (guard_of h).
Proof.
  repeat split.
  - destruct h; cbn [text_of guard_of];
      unfold Source.FlixorMac_Bridging_Header_h, Source.FlixorTV_Bridging_Header_h;
      repeat (apply Forall_cons; split; [vm_compute; reflexivity|]);
      apply Forall_nil_2.
  - destruct h; vm_compute; reflexivity.
  - destruct h; vm_compute; reflexivity.
  - apply include_guard_of.
Qed.

(** ** What one pass leaves behind *)

Lemma tu_state_eta (s : tu_state) : s = TU (macros s) (imported s) (code s).
Proof. by destruct s. Qed.

(** C4: no line of either header is program text, so nothing the program
    consists of originates there; and one pass over a header, from any
    translation-unit state, succeeds, hands no text to the compiler, and
    leaves every macro as it was except the header's own guard, which it
    at most defines with empty replacement text. *)
Theorem no_components (h : header) (s : tu_state) :
  program_text (lines_of h) = []
  /\ exists s', process h s = Ok s'
     /\ code s' = code s
     /\ delete (guard_of h) (macros s') = delete (guard_of h) (macros s)
     /\ (macros s' = macros s \/ macros s' !! guard_of h = Some "").
Proof.
  split; [destruct h; vm_compute; reflexivity|].
  rewrite process_closed_form. eexists. split; [reflexivity|].
  destruct (defined (guard_of h) s).
  - auto.
  - rewrite code_expose, macros_expose. repeat split.
    + apply delete_insert_eq.
    + right. apply lookup_insert_eq.
Qed.

(** C5: no line of either header is an [#error] or a malformed directive,
    and processing any sequence of the two headers (any order, any number of
    times each) from any translation-unit state ends without error. *)
Theorem no_error (hs : list header) (s : tu_state) :
  existsb may_fail (lines_of FlixorMac ++ lines_of FlixorTV) = false
  /\ exists s', process_all hs s = Ok s'.
Proof.
  split; [vm_compute; reflexivity|].
  revert s. induction hs as [|h hs IH]; intros s; cbn.
  - by eexists.
  - rewrite process_closed_form. cbn. apply IH.
Qed.

(** C6: the state after one pass over a header, in full.  When the guard is
    already defined the translation unit is returned as it was; otherwise the
    guard is defined (empty replacement text) and the header's imports are
    added to the visible headers.  The program text is the same in both
    cases: the pass writes nothing of its own. *)
Theorem process_frame (h : header) (s : tu_state) :
  process h s
  = Ok (if defined (guard_of h) s then s
        else TU (<[guard_of h := ""]> (macros s))
                (imported s ∪ list_to_set (imports h))
                (code s)).
Proof.
  rewrite process_closed_form. f_equal.
  destruct (defined (guard_of h) s); [reflexivity|].
  rewrite (tu_state_eta (expose h s)).
  by rewrite macros_expose, imported_expose, code_expose.
Qed.

(** ** The include guard at work *)

Lemma defined_after_process (h : header) (s : tu_state) :
  exists s', process h s = Ok s' /\ defined (guard_of h) s' = true.
Proof.
  rewrite process_closed_form. eexists. split; [reflexivity|].
  destruct (defined (guard_of h) s) eqn:E; [exact E|].
  rewrite defined_expose. by rewrite decide_True.
Qed.

Lemma process_guarded (h : header) (s : tu_state) :
  defined (guard_of h) s = true -> process h s = Ok s.
Proof. intros E. rewrite process_closed_form. by rewrite E. Qed.

Lemma process_times_guarded (n : nat) (h : header) (s : tu_state) :
  defined (guard_of h) s = true -> process_times n h s = Ok s.
Proof.
  intros E. induction n as [|n IH]; cbn; [reflexivity|].
  by rewrite process_guarded.
Qed.

(** C8: processing the same bridging header twice, or any number of times
    more than once, returns exactly the translation-unit state of processing
    it once (so the same imported headers and the same macros); after the
    first pass the guard macro is defined, which is what makes the later
    passes skip the body. *)
Theorem process_idempotent (h : header) (s : tu_state) (n : nat) :
  process_times (S n) h s = process h s
  /\ bind (process h s) (process h) = process h s
  /\ bind (process h s) (fun s' => Ok (defined (guard_of h) s')) = Ok true.
Proof.
  destruct (defined_after_process h s) as (s' & E & D).
  cbn [process_times]. rewrite E. cbn.
  rewrite D. repeat split.
  - by apply process_times_guarded.
  - by apply process_guarded.
Qed.

(** ** The two headers compared *)

(** C9: the macOS and the tvOS header import the same four mpv headers in
    the same order; the tvOS import list is the macOS one followed by Metal
    and MetalKit, so it is a strict superset, and the difference is exactly
    those two. *)
Theorem headers_agree_on_mpv :
  mpv_imports FlixorMac = mpv_headers
  /\ mpv_imports FlixorTV = mpv_headers
  /\ imports FlixorTV = (imports FlixorMac ++ graphics_headers)%list
  /\ imports FlixorMac ⊂ imports FlixorTV
  /\ list_difference (imports FlixorTV) (imports FlixorMac) = graphics_headers
  /\ list_difference (imports FlixorMac) (imports FlixorTV) = [].
Proof.
  split; [vm_compute; reflexivity|].
  split; [vm_compute; reflexivity|].
  split; [vm_compute; reflexivity|].
  split; [|split; vm_compute; reflexivity].
  rewrite imports_FlixorMac, imports_FlixorTV. split.
  - intros p Hp. apply elem_of_app. by left.
  - intros Hsub.
    assert ("Metal/Metal.h" ∈ mpv_headers) as Hin.
    { apply Hsub, elem_of_app. right. apply list_elem_of_In. cbn. auto. }
    apply list_elem_of_In in Hin. cbn in Hin.
    repeat destruct Hin as [Hin|Hin]; try discriminate Hin. exact Hin.
Qed.

(** ** Both headers in one translation unit *)

(** After any sequence of headers, the visible headers are those visible
    before together with the imports of every header of the sequence whose
    guard was not yet defined. *)
Lemma process_all_imported (hs : list header) (s : tu_state) :
  exists s', process_all hs s = Ok s'
    /\ forall p, p ∈ imported s'
         <-> p ∈ imported s
             \/ exists h, In h hs /\ defined (guard_of h) s = false /\ In p (imports h).
Proof.
  revert s. induction hs as [|h hs IH]; intros s; cbn [process_all].
  - exists s. split; [reflexivity|]. intros p. split; [auto|].
    intros [Hp|(h & [] & _)]. exact Hp.
  - rewrite process_closed_form. cbn [bind].
    destruct (defined (guard_of h) s) eqn:D.
    + destruct (IH s) as (s' & E & Hs'). exists s'. split; [exact E|].
      intros p. rewrite Hs'. split.
      * intros [Hp|(h' & Hin & Hd & Hp)]; [by left|].
        right. exists h'. split; [by right|]. done.
      * intros [Hp|(h' & [<-|Hin] & Hd & Hp)]; [by left|congruence|].
        right. by exists h'.
    + destruct (IH (expose h s)) as (s' & E & Hs'). exists s'. split; [exact E|].
      intros p. rewrite Hs', imported_expose, elem_of_union, elem_of_list_to_set.
      rewrite list_elem_of_In. split.
      * intros [[Hp|Hp]|(h' & Hin & Hd & Hp)]; [by left| |].
        -- right. exists h. split; [by left|]. done.
        -- right. exists h'. split; [by right|]. split; [|done].
           rewrite defined_expose in Hd. by case_decide.
      * intros [Hp|(h' & [<-|Hin] & Hd & Hp)]; [by left; left|by left; right|].
        destruct (decide (h = h')) as [<-|Hne]; [by left; right|].
        right. exists h'. split; [done|]. split; [|done].
        rewrite defined_expose. by rewrite decide_False.
Qed.

(** The case of a translation unit that has processed neither header yet
    (neither guard is defined): the two guard macros are different names, and
    processing both headers, in either order and any number of times, ends
    with the headers seen before together with the imports of both files. *)
Theorem both_headers_union (hs : list header) (s : tu_state) :
  In FlixorMac hs ->
  In FlixorTV hs ->
  defined (guard_of FlixorMac) s = false ->
  defined (guard_of FlixorTV) s = false ->
  guard_of FlixorMac <> guard_of FlixorTV
  /\ exists s', process_all hs s = Ok s'
       /\ imported s'
          = imported s ∪ list_to_set (imports FlixorMac)
                       ∪ list_to_set (imports FlixorTV).
Proof.
  intros Hmac Htv Dmac Dtv. split; [discriminate|].
  destruct (process_all_imported hs s) as (s' & E & Hs').
  exists s'. split; [exact E|].
  apply set_eq. intros p.
  rewrite Hs', !elem_of_union, !elem_of_list_to_set, !list_elem_of_In. split.
  - intros [Hp|(h & _ & _ & Hp)]; [by left; left|].
    destruct h; [by left; right|by right].
  - intros [[Hp|Hp]|Hp]; [by left| |].
    + right. by exists FlixorMac.
    + right. by exists FlixorTV.
Qed.

(** The fresh translation unit, macOS header first and tvOS header first. *)
Lemma both_headers_union_either_order :
  (guard_of FlixorMac <> guard_of FlixorTV
   /\ exists s', process_all [FlixorMac; FlixorTV] initial = Ok s'
        /\ imported s'
           = imported initial ∪ list_to_set (imports FlixorMac)
                              ∪ list_to_set (imports FlixorTV))
  /\ (guard_of FlixorMac <> guard_of FlixorTV
      /\ exists s', process_all [FlixorTV; FlixorMac] initial = Ok s'
           /\ imported s'
              = imported initial ∪ list_to_set (imports FlixorMac)
                                 ∪ list_to_set (imports FlixorTV)).
Proof.
  split.
  - apply (both_headers_union [FlixorMac; FlixorTV] initial).
    + simpl. left. reflexivity.
    + simpl. right. left. reflexivity.
    + vm_compute. reflexivity.
    + vm_compute. reflexivity.
  - apply (both_headers_union [FlixorTV; FlixorMac] initial).
    + simpl. right. left. reflexivity.
    + simpl. left. reflexivity.
    + vm_compute. reflexivity.
    + vm_compute. reflexivity.
Defined.

(** A translation unit that defines the macOS guard beforehand, without the
    header having been processed, gets the tvOS imports only: the guard of a
    header keeps out that header's own body, never the other's. *)
Example predefined_guard_skips_own_body :
  exists s', process_all [FlixorMac; FlixorTV]
               (define_macro (guard_of FlixorMac) "1" initial) = Ok s'
    /\ imported s' = list_to_set (imports FlixorTV)
    /\ macros s' !! guard_of FlixorMac = Some "1".
Proof.
  cbn [process_all]. rewrite process_closed_form.
  assert (defined (guard_of FlixorMac)
            (define_macro (guard_of FlixorMac) "1" initial) = true) as ->.
  { apply bool_decide_eq_true. unfold define_macro. cbn [macros].
    rewrite lookup_insert_eq. eauto. }
  cbn [bind]. rewrite process_closed_form.
  assert (defined (guard_of FlixorTV)
            (define_macro (guard_of FlixorMac) "1" initial) = false) as ->.
  { apply bool_decide_eq_false. unfold define_macro, initial. cbn [macros].
    rewrite lookup_insert_ne by discriminate.
    rewrite lookup_empty. intros [v Hv]. discriminate Hv. }
  eexists. split; [reflexivity|].
  rewrite imported_expose, macros_expose.
  unfold define_macro, initial. cbn [macros imported]. split.
  - by rewrite (left_id_L ∅ (∪)).
  - rewrite lookup_insert_ne by discriminate. apply lookup_insert_eq.
Qed.

(** ** Interleaved compilations *)

Section Jobs.
Import Build.

Lemma process_lines_header (h : header) (s : tu_state) :
  process_lines (lines_of h) [] s
  = Ok ([], if defined (guard_of h) s then s else expose h s).
Proof.
  unfold expose, imports.
  destruct h.
  - rewrite lines_of_FlixorMac.
    cbn [process_lines process_line active forallb live guard_of].
    destruct (defined _ s); cbn; reflexivity.
  - rewrite lines_of_FlixorTV.
    cbn [process_lines process_line active forallb live guard_of].
    destruct (defined _ s); cbn; reflexivity.
Qed.

(** [n] steps of a compilation process the first [n] pending lines. *)
Lemma advance_by_lines (n : nat) (ls : list line) (fs : list frame) (s : tu_state) :
  advance_by n (Job ls fs s)
  = bind (process_lines (take n ls) fs s)
         (fun r => Ok (Job (drop n ls) (fst r) (snd r))).
Proof.
  revert ls fs s. induction n as [|n IH]; intros ls fs s.
  - cbn. by rewrite drop_0.
  - destruct ls as [|l ls].
    + cbn [advance_by advance pending bind]. rewrite IH.
      by rewrite take_nil, !drop_nil.
    + cbn [advance_by advance pending frames unit take drop process_lines].
      destruct (process_line l fs s) as [[fs' s']|e]; cbn [bind]; [|reflexivity].
      apply IH.
Qed.

(** Program text only ever comes from a line that is program text. *)
Lemma process_line_code (l : line) (fs fs' : list frame) (s s' : tu_state) :
  process_line l fs s = Ok (fs', s') ->
  code s' = (code s ++ (if active fs then program_text [l] else []))%list.
Proof.
  destruct l; cbn [process_line program_text];
    try (destruct fs as [|f fs0]; [discriminate|]);
    try destruct (seen_else f);
    destruct (active _); intros E;
    try discriminate E; injection E as <- <-; cbn;
    by rewrite ?app_nil_r.
Qed.

Lemma process_lines_code (ls : list line) (fs fs' : list frame) (s s' : tu_state) :
  program_text ls = [] ->
  process_lines ls fs s = Ok (fs', s') ->
  code s' = code s.
Proof.
  revert fs s. induction ls as [|l ls IH]; intros fs s Hp E; cbn in E.
  - by injection E as _ <-.
  - destruct (process_line l fs s) as [[fs1 s1]|e] eqn:El; [|discriminate E].
    assert (program_text [l] = [] /\ program_text ls = []) as [Hl Hls].
    { destruct l; cbn in Hp |- *; first [done | discriminate Hp]. }
    apply process_line_code in El. rewrite Hl in El.
    rewrite (IH _ _ Hls E), El. by destruct (active fs); rewrite app_nil_r.
Qed.

Lemma program_text_take (n : nat) (ls : list line) :
  program_text ls = [] -> program_text (take n ls) = [].
Proof.
  revert n. induction ls as [|l ls IH]; intros n Hp; destruct n; try done.
  destruct l; cbn in Hp |- *; first [by apply IH | discriminate Hp].
Qed.

Ltac run_prefix s :=
  cbn [take process_lines process_line active forallb live negb andb is_ok];
  try (destruct (defined _ s);
       cbn [process_lines process_line active forallb live negb andb is_ok]).

(** No prefix of either header stops the preprocessor. *)
Lemma prefix_safe (h : header) (n : nat) (s : tu_state) :
  is_ok (process_lines (take n (lines_of h)) [] s) = true.
Proof.
  destruct h.
  - rewrite lines_of_FlixorMac.
    do 18 (destruct n as [|n]; [by run_prefix s|]).
    cbn [take]. rewrite take_nil. by run_prefix s.
  - rewrite lines_of_FlixorTV.
    do 21 (destruct n as [|n]; [by run_prefix s|]).
    cbn [take]. rewrite take_nil. by run_prefix s.
Qed.

Lemma advance_by_start (h : header) (n : nat) (s : tu_state) :
  exists j, advance_by n (start h s) = Ok j /\ code (unit j) = code s.
Proof.
  unfold start. rewrite advance_by_lines.
  pose proof (prefix_safe h n s) as Hok.
  destruct (process_lines (take n (lines_of h)) [] s) as [[fs' s']|e] eqn:E;
    [|discriminate Hok].
  eexists. split; [reflexivity|]. cbn.
  eapply process_lines_code; [|exact E].
  apply program_text_take. destruct h; vm_compute; reflexivity.
Qed.

Lemma advance_by_complete (h : header) (k : nat) (s : tu_state) :
  advance_by (length (lines_of h) + k) (start h s)
  = bind (process h s) (fun s' => Ok (Job [] [] s')).
Proof.
  unfold start. rewrite advance_by_lines.
  rewrite take_ge, drop_ge by lia.
  rewrite process_lines_header, process_closed_form. reflexivity.
Qed.

Lemma advance_by_S (n : nat) (j j' : job) :
  advance j = Ok j' -> advance_by (S n) j = advance_by n j'.
Proof. intros E. cbn. by rewrite E. Qed.

(** Two compilations that cannot fail run, under any schedule, as they
    would each on its own. *)
Lemma run_schedule_split (sch : list target) (j1 j2 : job) :
  (forall n, is_ok (advance_by n j1) = true) ->
  (forall n, is_ok (advance_by n j2) = true) ->
  run_schedule sch (World j1 j2)
  = bind (advance_by (mac_turns sch) j1) (fun j1' =>
    bind (advance_by (tv_turns sch) j2) (fun j2' => Ok (World j1' j2'))).
Proof.
  revert j1 j2. induction sch as [|t sch IH]; intros j1 j2 H1 H2.
  - reflexivity.
  - destruct t; cbn [run_schedule turn mac_build tv_build].
    + pose proof (H1 1) as Ha. cbn in Ha.
      destruct (advance j1) as [j1'|e] eqn:E; [|discriminate Ha].
      cbn [bind]. rewrite IH; [|intros n; rewrite <- (advance_by_S n _ _ E); apply H1|exact H2].
      change (mac_turns (MacOS :: sch)) with (S (mac_turns sch)).
      change (tv_turns (MacOS :: sch)) with (tv_turns sch).
      by rewrite (advance_by_S _ _ _ E).
    + pose proof (H2 1) as Ha. cbn in Ha.
      destruct (advance j2) as [j2'|e] eqn:E; [|discriminate Ha].
      cbn [bind]. rewrite IH; [|exact H1|intros n; rewrite <- (advance_by_S n _ _ E); apply H2].
      change (mac_turns (TvOS :: sch)) with (mac_turns sch).
      change (tv_turns (TvOS :: sch)) with (S (tv_turns sch)).
      by rewrite (advance_by_S _ _ _ E).
Qed.

(** C7: let the macOS and the tvOS compilation each read its bridging header
    line by line, in any interleaving and from any two translation units.
    Every such run goes through without error; each compilation is at every
    moment where the same number of its own steps would have taken it alone,
    so the order of the steps makes no difference; once it has had as many
    steps as its header has lines it holds the result of [process]; and the
    program text of the two, the one thing they could have in common, is never
    touched. *)
Theorem interleaving_independent (sch : list target) (s1 s2 : tu_state) :
  exists w,
    run_schedule sch (World (start FlixorMac s1) (start FlixorTV s2)) = Ok w
    /\ advance_by (mac_turns sch) (start FlixorMac s1) = Ok (mac_build w)
    /\ advance_by (tv_turns sch) (start FlixorTV s2) = Ok (tv_build w)
    /\ program w = (code s1 ++ code s2)%list
    /\ (forall k, advance_by (length (lines_of FlixorMac) + k) (start FlixorMac s1)
                  = bind (process FlixorMac s1) (fun s' => Ok (Job [] [] s')))
    /\ (forall k, advance_by (length (lines_of FlixorTV) + k) (start FlixorTV s2)
                  = bind (process FlixorTV s2) (fun s' => Ok (Job [] [] s'))).
Proof.
  destruct (advance_by_start FlixorMac (mac_turns sch) s1) as (j1 & E1 & C1).
  destruct (advance_by_start FlixorTV (tv_turns sch) s2) as (j2 & E2 & C2).
  exists (World j1 j2).
  rewrite run_schedule_split, E1, E2.
  - cbn [bind mac_build tv_build]. unfold program. cbn [mac_build tv_build].
    rewrite C1, C2. repeat split; intros k; apply advance_by_complete.
  - intros n. destruct (advance_by_start FlixorMac n s1) as (j & -> & _). reflexivity.
  - intros n. destruct (advance_by_start FlixorTV n s2) as (j & -> & _). reflexivity.
Qed.

End Jobs.

(** ** Sequences of passes *)

Lemma process_pass (h : header) (s : tu_state) : process h s = Ok (pass h s).
Proof. apply process_closed_form. Qed.

Lemma process_all_pass (hs : list header) (s : tu_state) :
  process_all hs s = Ok (pass_all hs s).
Proof.
  revert s. induction hs as [|h hs IH]; intros s; cbn [process_all pass_all fold_left].
  - reflexivity.
  - rewrite process_pass. cbn [bind]. apply IH.
Qed.

Lemma defined_false_lookup (m : string) (s : tu_state) :
  defined m s = false -> macros s !! m = None.
Proof.
  unfold defined. intros H. apply bool_decide_eq_false in H.
  by apply eq_None_not_Some.
Qed.

Lemma defined_pass (h h' : header) (s : tu_state) :
  defined (guard_of h') (pass h s)
  = defined (guard_of h') s || bool_decide (h = h').
Proof.
  unfold pass. destruct (defined (guard_of h) s) eqn:D.
  - case_bool_decide as E; [subst h'; by rewrite D|by rewrite orb_false_r].
  - rewrite defined_expose. case_decide as E.
    + by rewrite bool_decide_eq_true_2, orb_true_r.
    + by rewrite bool_decide_eq_false_2, orb_false_r.
Qed.

Lemma pass_idem (h : header) (s : tu_state) : pass h (pass h s) = pass h s.
Proof.
  unfold pass at 1. rewrite defined_pass.
  by rewrite bool_decide_eq_true_2, orb_true_r.
Qed.

Lemma expose_comm (h h' : header) (s : tu_state) :
  h <> h' -> expose h (expose h' s) = expose h' (expose h s).
Proof.
  intros Hne.
  rewrite (tu_state_eta (expose h (expose h' s))).
  rewrite (tu_state_eta (expose h' (expose h s))).
  rewrite !macros_expose, !imported_expose, !code_expose. f_equal.
  - apply insert_insert_ne. intros G. by apply Hne, guard_of_inj.
  - apply set_eq. intros p. rewrite !elem_of_union. tauto.
Qed.

Lemma pass_comm (h h' : header) (s : tu_state) :
  pass h (pass h' s) = pass h' (pass h s).
Proof.
  destruct (decide (h = h')) as [->|Hne]; [reflexivity|].
  unfold pass at 1 3. rewrite !defined_pass.
  rewrite (bool_decide_eq_false_2 (h' = h)) by congruence.
  rewrite (bool_decide_eq_false_2 (h = h')) by congruence.
  rewrite !orb_false_r. unfold pass.
  destruct (defined (guard_of h) s), (defined (guard_of h') s); try reflexivity.
  by apply expose_comm.
Qed.

(** Only which headers occur in a sequence matters. *)
Lemma pass_all_members (hs : list header) (s : tu_state) :
  pass_all hs s
  = (if bool_decide (FlixorTV ∈ hs) then pass FlixorTV else id)
      ((if bool_decide (FlixorMac ∈ hs) then pass FlixorMac else id) s).
Proof.
  revert s. induction hs as [|h hs IH]; intros s.
  - reflexivity.
  - cbn [pass_all fold_left]. fold (pass_all hs (pass h s)). rewrite IH.
    destruct h.
    + rewrite (bool_decide_eq_true_2 (FlixorMac ∈ FlixorMac :: hs)) by left.
      rewrite (bool_decide_ext (FlixorTV ∈ FlixorMac :: hs) (FlixorTV ∈ hs)).
      2:{ rewrite elem_of_cons. split; [intros [?|?]; [discriminate|done]|by right]. }
      destruct (bool_decide (FlixorTV ∈ hs)), (bool_decide (FlixorMac ∈ hs));
        cbn [id]; by rewrite ?pass_idem.
    + rewrite (bool_decide_eq_true_2 (FlixorTV ∈ FlixorTV :: hs)) by left.
      rewrite (bool_decide_ext (FlixorMac ∈ FlixorTV :: hs) (FlixorMac ∈ hs)).
      2:{ rewrite elem_of_cons. split; [intros [?|?]; [discriminate|done]|by right]. }
      destruct (bool_decide (FlixorTV ∈ hs)), (bool_decide (FlixorMac ∈ hs));
        cbn [id]; rewrite ?(pass_comm FlixorMac FlixorTV); by rewrite ?pass_idem.
Qed.

(** X1: the order of two passes does not matter.  From every translation-unit
    state, processing header [h] and then [h'] ends in the same state, in
    full, as processing [h'] and then [h]. *)
Theorem process_commute (h h' : header) (s : tu_state) :
  process_all [h; h'] s = process_all [h'; h] s.
Proof.
  rewrite !process_all_pass. cbn [pass_all fold_left].
  by rewrite pass_comm.
Qed.

(** X2: a sequence of passes is determined by which headers occur in it: two
    sequences with the same members, in whatever order and however often
    repeated, take every translation-unit state to the same result. *)
Theorem process_all_same_members (hs hs' : list header) (s : tu_state) :
  (forall h, In h hs <-> In h hs') ->
  process_all hs s = process_all hs' s.
Proof.
  intros Hm. rewrite !process_all_pass, !pass_all_members.
  rewrite (bool_decide_ext (FlixorTV ∈ hs) (FlixorTV ∈ hs'))
    by (rewrite !list_elem_of_In; apply Hm).
  rewrite (bool_decide_ext (FlixorMac ∈ hs) (FlixorMac ∈ hs'))
    by (rewrite !list_elem_of_In; apply Hm).
  reflexivity.
Qed.

(** X2 at a sequence with a repeat and its members in the other order. *)
Lemma process_all_same_members_repeat :
  process_all [FlixorMac; FlixorTV; FlixorMac] initial
  = process_all [FlixorTV; FlixorMac] initial.
Proof.
  apply (process_all_same_members [FlixorMac; FlixorTV; FlixorMac]
           [FlixorTV; FlixorMac] initial).
  intros h. destruct h; simpl; tauto.
Defined.

(** ** What a pass never takes away *)

Lemma pass_grows (h : header) (s : tu_state) :
  imported s ⊆ imported (pass h s)
  /\ macros s ⊆ macros (pass h s)
  /\ code (pass h s) = code s.
Proof.
  unfold pass. destruct (defined (guard_of h) s) eqn:D; [done|].
  rewrite imported_expose, macros_expose, code_expose. repeat split.
  - apply union_subseteq_l.
  - apply insert_subseteq. by apply defined_false_lookup.
Qed.

(** X3: processing any sequence of the two headers never hides a header that
    was visible, never removes a macro or changes its replacement text (a
    guard defined beforehand keeps whatever text it had), and never adds
    program text. *)
Theorem process_all_grows (hs : list header) (s : tu_state) :
  exists s', process_all hs s = Ok s'
    /\ imported s ⊆ imported s'
    /\ macros s ⊆ macros s'
    /\ code s' = code s.
Proof.
  rewrite process_all_pass. eexists. split; [reflexivity|].
  revert s. induction hs as [|h hs IH]; intros s; cbn [pass_all fold_left].
  - done.
  - fold (pass_all hs (pass h s)).
    destruct (pass_grows h s) as (Hi & Hm & Hc).
    destruct (IH (pass h s)) as (Hi' & Hm' & Hc').
    repeat split.
    + by etrans.
    + by etrans.
    + by rewrite Hc'.
Qed.

(** ** A defined guard stands for visible imports *)

Lemma guards_sound_pass (h : header) (s : tu_state) :
  guards_sound s -> guards_sound (pass h s).
Proof.
  intros Hs h' p D Hp. unfold pass in *.
  destruct (defined (guard_of h) s) eqn:Dh; [by apply (Hs h')|].
  rewrite imported_expose. rewrite defined_expose in D.
  case_decide as E.
  - subst h'. apply elem_of_union_r, elem_of_list_to_set. by apply list_elem_of_In.
  - apply elem_of_union_l. by apply (Hs h').
Qed.

Lemma guards_sound_initial : guards_sound initial.
Proof. intros h p D. by rewrite defined_initial in D. Qed.

(** X4: if in a translation unit every guard that is defined has its
    header's imports visible, the same holds after processing any sequence of
    the two headers.  A fresh translation unit is such a state, so every state
    reached by passes alone is. *)
Theorem guards_sound_preserved (hs : list header) (s : tu_state) :
  guards_sound s ->
  exists s', process_all hs s = Ok s' /\ guards_sound s'.
Proof.
  intros Hs. rewrite process_all_pass. eexists. split; [reflexivity|].
  revert s Hs. induction hs as [|h hs IH]; intros s Hs; cbn [pass_all fold_left].
  - exact Hs.
  - apply IH. by apply guards_sound_pass.
Qed.

(** X4 from the fresh translation unit. *)
Lemma guards_sound_preserved_fresh :
  exists s', process_all [FlixorTV; FlixorMac; FlixorTV] initial = Ok s'
    /\ guards_sound s'.
Proof.
  apply (guards_sound_preserved [FlixorTV; FlixorMac; FlixorTV] initial).
  intros h p D. rewrite defined_initial in D. discriminate D.
Defined.

(** X5: from a translation unit in which defined guards stand for visible
    imports, the headers visible after any sequence of passes are exactly
    those visible before together with every import of every header in the
    sequence, whether a header's guard was already defined or not. *)
Theorem visible_after_sequence (hs : list header) (s : tu_state) :
  guards_sound s ->
  exists s', process_all hs s = Ok s'
    /\ forall p, p ∈ imported s'
         <-> p ∈ imported s \/ exists h, In h hs /\ In p (imports h).
Proof.
  intros Hs. destruct (process_all_imported hs s) as (s' & E & Hs').
  exists s'. split; [exact E|]. intros p. rewrite Hs'. split.
  - intros [Hp|(h & Hin & _ & Hp)]; [by left|]. right. by exists h.
  - intros [Hp|(h & Hin & Hp)]; [by left|].
    destruct (defined (guard_of h) s) eqn:D.
    + left. by apply (Hs h).
    + right. by exists h.
Qed.

(** X5 from the fresh translation unit. *)
Lemma visible_after_sequence_fresh :
  exists s', process_all [FlixorMac; FlixorMac] initial = Ok s'
    /\ forall p, p ∈ imported s'
         <-> p ∈ imported initial
             \/ exists h, In h [FlixorMac; FlixorMac] /\ In p (imports h).
Proof.
  apply (visible_after_sequence [FlixorMac; FlixorMac] initial).
  intros h p D. rewrite defined_initial in D. discriminate D.
Defined.

(** X6: once the tvOS header has been processed, processing the macOS header
    makes no further header visible and adds no program text; it can only
    define its own guard.  This holds from every translation unit in which
    defined guards stand for visible imports. *)
Theorem macos_adds_nothing_after_tvos (s : tu_state) :
  guards_sound s ->
  exists s1 s2,
    process FlixorTV s = Ok s1
    /\ process FlixorMac s1 = Ok s2
    /\ imported s2 = imported s1
    /\ code s2 = code s1
    /\ delete (guard_of FlixorMac) (macros s2) = delete (guard_of FlixorMac) (macros s1).
Proof.
  intros Hs. exists (pass FlixorTV s), (pass FlixorMac (pass FlixorTV s)).
  rewrite !process_pass. split; [reflexivity|]. split; [reflexivity|].
  assert (forall p, In p (imports FlixorMac) -> p ∈ imported (pass FlixorTV s)) as Hv.
  { intros p Hp.
    apply (guards_sound_pass FlixorTV s Hs FlixorTV).
    - rewrite defined_pass. by rewrite bool_decide_eq_true_2, orb_true_r.
    - rewrite imports_FlixorMac in Hp. rewrite imports_FlixorTV.
      apply in_or_app. by left. }
  set (s1 := pass FlixorTV s) in *.
  unfold pass. destruct (defined (guard_of FlixorMac) s1); [done|].
  rewrite imported_expose, code_expose, macros_expose. repeat split.
  - apply set_eq. intros p. rewrite elem_of_union, elem_of_list_to_set, list_elem_of_In.
    split; [intros [Hp|Hp]; [done|by apply Hv]|by left].
  - apply delete_insert_eq.
Qed.

(** X6 from the fresh translation unit. *)
Lemma macos_adds_nothing_after_tvos_fresh :
  exists s1 s2,
    process FlixorTV initial = Ok s1
    /\ process FlixorMac s1 = Ok s2
    /\ imported s2 = imported s1
    /\ code s2 = code s1
    /\ delete (guard_of FlixorMac) (macros s2) = delete (guard_of FlixorMac) (macros s1).
Proof.
  apply (macos_adds_nothing_after_tvos initial).
  intros h p D. rewrite defined_initial in D. discriminate D.
Defined.

(** ** The banner, the guard and the file name *)

(** X7: each file describes itself consistently.  The second line of its
    banner comment is the name of the file, the third line is the name of the
    directory (the target) it lies in, the file name is that target followed
    by [-Bridging-Header.h], the guard macro is the file name with every
    character that cannot stand in an identifier replaced by an underscore,
    and the comment on the [#endif] line names the guard macro. *)
Theorem header_describes_itself (h : header) :
  text_of h !! 1%nat ≫= comment_text = Some (file_name h)
  /\ text_of h !! 2%nat ≫= comment_text = Some (directory_name h)
  /\ file_name h = directory_name h +:+ "-Bridging-Header.h"
  /\ include_guard (lines_of h) = Some (mangle (file_name h))
  /\ List.find is_endif (text_of h) ≫= named_in_block_comment
     = include_guard (lines_of h).
Proof. destruct h; vm_compute; repeat split; reflexivity. Qed.

(** ** Both headers in one translation unit, from any sound state *)

Lemma defined_define_macro (m body : string) (s : tu_state) :
  defined m (define_macro m body s) = true.
Proof.
  apply bool_decide_eq_true. unfold define_macro. cbn [macros].
  rewrite lookup_insert_eq. eauto.
Qed.

(** C10, as stated for every translation unit, fails on a unit that has the
    tvOS guard defined beforehand without the tvOS imports being visible:
    processing the macOS and then the tvOS header there skips the tvOS body,
    so Metal never becomes visible and the visible headers are not the union
    of the two import lists. *)
Lemma predefined_guard_breaks_union :
  ~ (exists s',
       process_all [FlixorMac; FlixorTV]
         (define_macro (guard_of FlixorTV) "" initial) = Ok s'
       /\ imported s'
          = imported (define_macro (guard_of FlixorTV) "" initial)
              ∪ list_to_set (imports FlixorMac)
              ∪ list_to_set (imports FlixorTV)).
Proof.
  intros (s' & E & Hi).
  destruct (process_all_imported [FlixorMac; FlixorTV]
              (define_macro (guard_of FlixorTV) "" initial)) as (s'' & E' & Hs').
  rewrite E in E'. injection E' as <-.
  assert ("Metal/Metal.h" ∈ imported s') as Hin.
  { rewrite Hi. apply elem_of_union_r, elem_of_list_to_set, list_elem_of_In.
    rewrite imports_FlixorTV. cbn. auto 10. }
  apply Hs' in Hin as [Hin|(h & Hh & D & Hp)].
  - unfold define_macro, initial in Hin. cbn [imported] in Hin.
    by apply not_elem_of_empty in Hin.
  - destruct h.
    + rewrite imports_FlixorMac in Hp. cbn in Hp.
      repeat destruct Hp as [Hp|Hp]; try discriminate Hp. exact Hp.
    + rewrite defined_define_macro in D. discriminate D.
Qed.

(** C10 (amended): the two guard macros are different names, and from every
    translation unit in which a guard that is already defined means that its
    header's imports are already visible (a fresh unit, a unit with neither
    guard defined, and every unit that got where it is by processing these
    headers are such), processing both headers, in either order and any
    number of times, ends with the headers visible before together with the
    imports of both files: neither guard keeps the other file's body out. *)
Theorem both_headers_union_sound (hs : list header) (s : tu_state) :
  In FlixorMac hs ->
  In FlixorTV hs ->
  guards_sound s ->
  guard_of FlixorMac <> guard_of FlixorTV
  /\ exists s', process_all hs s = Ok s'
       /\ imported s'
          = imported s ∪ list_to_set (imports FlixorMac)
                       ∪ list_to_set (imports FlixorTV).
Proof.
  intros Hmac Htv Hs. split; [discriminate|].
  destruct (process_all_imported hs s) as (s' & E & Hs').
  exists s'. split; [exact E|].
  apply set_eq. intros p.
  rewrite Hs', !elem_of_union, !elem_of_list_to_set, !list_elem_of_In. split.
  - intros [Hp|(h & _ & _ & Hp)]; [by left; left|].
    destruct h; [by left; right|by right].
  - assert (forall h, In h hs -> In p (imports h) ->
              p ∈ imported s
              \/ exists h', In h' hs /\ defined (guard_of h') s = false
                           /\ In p (imports h')) as Hcase.
    { intros h Hh Hp. destruct (defined (guard_of h) s) eqn:D.
      - left. by apply (Hs h).
      - right. by exists h. }
    intros [[Hp|Hp]|Hp]; [by left| |].
    + by apply (Hcase FlixorMac).
    + by apply (Hcase FlixorTV).
Qed.

(** C10 (amended) in both orders, from the fresh translation unit and from
    the unit that has already processed the tvOS header. *)
Lemma both_headers_union_sound_orders :
  (guard_of FlixorMac <> guard_of FlixorTV
   /\ exists s', process_all [FlixorMac; FlixorTV] initial = Ok s'
        /\ imported s'
           = imported initial ∪ list_to_set (imports FlixorMac)
                              ∪ list_to_set (imports FlixorTV))
  /\ (guard_of FlixorMac <> guard_of FlixorTV
      /\ exists s', process_all [FlixorTV; FlixorMac] (pass FlixorTV initial) = Ok s'
           /\ imported s'
              = imported (pass FlixorTV initial)
                  ∪ list_to_set (imports FlixorMac)
                  ∪ list_to_set (imports FlixorTV)).
Proof.
  split.
  - apply (both_headers_union_sound [FlixorMac; FlixorTV] initial).
    + simpl. left. reflexivity.
    + simpl. right. left. reflexivity.
    + intros h p D. rewrite defined_initial in D. discriminate D.
  - apply (both_headers_union_sound [FlixorTV; FlixorMac] (pass FlixorTV initial)).
    + simpl. right. left. reflexivity.
    + simpl. left. reflexivity.
    + apply guards_sound_pass. intros h p D.
      rewrite defined_initial in D. discriminate D.
Defined.
